(** * ColumnNullable: a nullable wrapper over a polymorphic value store

    Shallow embedding of [src/Columns/ColumnNullable.h].

    A nullable column owns two sub-columns: [nested_column], an arbitrary
    [IColumn] holding the values, and [null_map], a [ColumnUInt8] holding one
    byte per row (non-zero = NULL).  The nested column is reached through the
    virtual interface only, so it is embedded as a type class; the null map is
    a concrete byte vector, embedded as [list Z].

    The inline member functions of the header are translated from the header.
    The member functions that the header only declares are embedded from the
    design document; each of those definitions says so in its comment. *)

From Stdlib Require Import ZArith.
From stdpp Require Import base option list strings.

Local Open Scope Z_scope.
Local Open Scope nat_scope.

(** ** Failures *)

(** Exceptions thrown by bulk operations.  [OutOfBounds] stands for an access
    outside a buffer, which the C++ code leaves undefined. *)
Inductive Exception : Type :=
| SizeMismatch
| OutOfBounds.

Inductive Result (A : Type) : Type :=
| Ok (a : A)
| Throw (e : Exception).
Arguments Ok {A} a.
Arguments Throw {A} e.

#[global] Instance Result_ret : MRet Result := fun _ a => Ok a.
#[global] Instance Result_bind : MBind Result := fun _ _ f m =>
  match m with
  | Ok a => f a
  | Throw e => Throw e
  end.
#[global] Instance Result_fmap : FMap Result := fun _ _ f m =>
  match m with
  | Ok a => Ok (f a)
  | Throw e => Throw e
  end.

(** Lift a bounds-checked lookup into [Result]. *)
Definition in_bounds {A} (o : option A) : Result A :=
  match o with
  | Some a => Ok a
  | None => Throw OutOfBounds
  end.

(** ** Bytes, filters, permutations, offsets *)

(** [UInt8] values are carried as [Z]; [NullMap] is [ColumnUInt8::Container]. *)
Abbreviation UInt8 := Z (only parsing).
Abbreviation NullMap := (list Z) (only parsing).
(** [IColumn::Filter] is a byte per row, [IColumn::Permutation] and
    [IColumn::Offsets] are vectors of row numbers. *)
Abbreviation Filter := (list Z) (only parsing).
Abbreviation Permutation := (list nat) (only parsing).
Abbreviation Offsets := (list nat) (only parsing).

(** The C++ test [byte != 0]. *)
Definition nonzero (b : Z) : bool := negb (b =? 0)%Z.

(** Number of truthy entries of a filter. *)
Definition count_true (filt : Filter) : nat :=
  length (base.filter (λ b, nonzero b = true) filt).

(** Row-wise semantics of the bulk transformations, shared by every column
    kind.  Modelled from the spec: section 4.3 ("keep rows where [mask[row]]
    is truthy"; "reorder rows according to [perm]"; "row i of the input is
    repeated [offsets[i] - offsets[i-1]] times"). *)
Fixpoint filter_rows {A} (filt : Filter) (data : list A) : list A :=
  match filt, data with
  | f :: filt', x :: data' =>
      if nonzero f then x :: filter_rows filt' data' else filter_rows filt' data'
  | _, _ => []
  end.

(** Destination row [i] is source row [perm[i]], for the first [limit] rows
    ([limit = 0] meaning all of them). *)
Definition permute_limit (size limit : nat) : nat :=
  if limit =? 0 then size else min size limit.

Definition gather_rows {A} (idx : list nat) (data : list A) : option (list A) :=
  mapM (λ i, data !! i) idx.

Fixpoint replicate_from {A} (prev : nat) (offsets : Offsets) (data : list A) : list A :=
  match offsets, data with
  | o :: offsets', x :: data' =>
      replicate (o - prev) x ++ replicate_from o offsets' data'
  | _, _ => []
  end.

Definition replicate_rows {A} (offsets : Offsets) (data : list A) : list A :=
  replicate_from 0 offsets data.

(** ** The nested value store: the part of [IColumn] the wrapper calls *)

Module IColumn.

(** [C] is the representation of a column, [V] the type of a row value (a
    non-null [Field]) and [R] the type [StringRef].  [values] is the abstract
    content of a column, row by row.  The wrapper calls the nested column
    through virtual functions only, so the operations are fields; the laws are
    the contract of the value store (an insertion appends one row, a bulk
    transformation acts row-wise, decoding inverts encoding), stated on
    [values].  [ListStoreFacts.store] below is a store that satisfies them.
    Accessors take the row number unchecked, as in the C++ interface. *)
Class Store (C V R : Type) : Type := {
  values : C → list V;
  size : C → nat;
  default : V;
  insertDefault : C → C;
  insert : C → V → C;
  getBool : C → nat → bool;
  get64 : C → nat → Z;
  getDataAt : C → nat → R;
  structureEquals : C → C → bool;
  compareAt : C → nat → nat → C → Z → Z;
  filter : C → Filter → Z → Result C;
  permute : C → Permutation → nat → Result C;
  replicate : C → Offsets → Result C;
  serializeValueIntoArena : C → nat → list Z;
  deserializeAndInsertFromArena : C → list Z → option (C * list Z);

  size_values : ∀ c, size c = length (values c);
  values_insertDefault : ∀ c, values (insertDefault c) = values c ++ [default];
  values_insert : ∀ c v, values (insert c v) = values c ++ [v];
  values_filter : ∀ c filt hint,
    length filt = size c →
    ∃ c', filter c filt hint = Ok c' ∧ values c' = filter_rows filt (values c);
  values_permute : ∀ c perm limit rows,
    permute_limit (size c) limit ≤ length perm →
    gather_rows (take (permute_limit (size c) limit) perm) (values c) = Some rows →
    ∃ c', permute c perm limit = Ok c' ∧ values c' = rows;
  values_replicate : ∀ c offsets,
    length offsets = size c →
    ∃ c', replicate c offsets = Ok c' ∧ values c' = replicate_rows offsets (values c);
  values_deserialize : ∀ c bytes c' rest,
    deserializeAndInsertFromArena c bytes = Some (c', rest) →
    ∃ v, values c' = values c ++ [v];
  deserialize_serialize : ∀ c n v d rest,
    values c !! n = Some v →
    ∃ d', deserializeAndInsertFromArena d (serializeValueIntoArena c n ++ rest)
            = Some (d', rest)
          ∧ values d' = values d ++ [v];
}.

End IColumn.

(** ** The null-map column *)

Module ColumnUInt8.

(** Bulk transformations of the byte vector behind [ColumnUInt8].
    Modelled from the spec: the implementation of [ColumnVector<UInt8>] is not
    part of the header; section 4.3 gives the row-wise result and section 7
    makes a length mismatch a size-mismatch failure ("never silently truncates
    or pads"). *)
Definition filter (data : NullMap) (filt : Filter) (result_size_hint : Z)
  : Result NullMap :=
  if decide (length filt = length data)
  then Ok (filter_rows filt data)
  else Throw SizeMismatch.

Definition permute (data : NullMap) (perm : Permutation) (limit : nat)
  : Result NullMap :=
  let limit' := permute_limit (length data) limit in
  if decide (limit' ≤ length perm)
  then in_bounds (gather_rows (take limit' perm) data)
  else Throw SizeMismatch.

Definition replicate (data : NullMap) (offsets : Offsets) : Result NullMap :=
  if decide (length offsets = length data)
  then Ok (replicate_rows offsets data)
  else Throw SizeMismatch.

End ColumnUInt8.

(** ** The nullable wrapper *)

Module ColumnNullable.

Section Wrapper.
Context {C V R : Type} `{!IColumn.Store C V R}.

(** The sentinel [EMPTY_STRING_REF] is declared outside the header; it is a
    parameter of the embedding. *)
Variable EMPTY_STRING_REF : R.

(** The two owned sub-columns ([WrappedPtr nested_column], [WrappedPtr null_map]). *)
Record t : Type := create {
  nested_column : C;
  null_map : NullMap;
}.

(** What [typeid_cast<const ColumnNullable *>] distinguishes in a
    [const IColumn &]: a nullable wrapper, or any other column. *)
Inductive Column : Type :=
| Nullable (col : t)
| NotNullable (c : C).

(** A [Field]: [Null] or a value. *)
Abbreviation Field := (option V) (only parsing).

(** [checkConsistency]'s condition: the nested column and the null map have
    the same number of rows. *)
Definition consistent (col : t) : Prop :=
  IColumn.size (nested_column col) = length (null_map col).

(** *** Inline member functions of the header *)

(** [size_t size() const { return nested_column->size(); }] *)
Definition size (col : t) : nat :=
  IColumn.size (nested_column col).

(** [bool isNullAt(size_t n) const { return ...getData()[n] != 0; }]
    The read [getData()[n]] is unchecked; [None] is a read outside the map. *)
Definition isNullAt (col : t) (n : nat) : option bool :=
  nonzero <$> null_map col !! n.

(** [bool getBool(size_t n) const
      { return isNullAt(n) ? false : nested_column->getBool(n); }] *)
Definition getBool (col : t) (n : nat) : option bool :=
  is_null ← isNullAt col n;
  Some (if is_null : bool then false else IColumn.getBool (nested_column col) n).

(** [UInt64 get64(size_t n) const { return nested_column->get64(n); }] *)
Definition get64 (col : t) (n : nat) : Z :=
  IColumn.get64 (nested_column col) n.

(** [StringRef getDataAt(size_t n) const] *)
Definition getDataAt (col : t) (n : nat) : option R :=
  is_null ← isNullAt col n;
  if is_null : bool then Some EMPTY_STRING_REF
  else Some (IColumn.getDataAt (nested_column col) n).

(** [void insertDefault()]: [getNestedColumn().insertDefault();
    getNullMapData().push_back(1);] *)
Definition insertDefault (col : t) : t :=
  {| nested_column := IColumn.insertDefault (nested_column col);
     null_map := null_map col ++ [1%Z] |}.

(** [bool structureEquals(const IColumn & rhs) const] *)
Definition structureEquals (col : t) (rhs : Column) : bool :=
  match rhs with
  | Nullable rhs_nullable =>
      IColumn.structureEquals (nested_column col) (nested_column rhs_nullable)
  | NotNullable _ => false
  end.

(** [bool isNullable() const { return true; }] *)
Definition isNullable (col : t) : bool := true.

(** *** Member functions declared in the header, defined elsewhere *)

(** [null_direction_hint] is an [int]: negative places NULLs first, positive
    places them last. *)
Definition nulls_first : Z := (-1)%Z.
Definition nulls_last : Z := 1%Z.

(** Modelled from the spec: [insert(const Field & x)] is declared in the
    header only.  Section 3 makes it an append; a NULL field is appended as
    [insertDefault] does (default value, byte 1), any other value goes to the
    nested store with byte 0. *)
Definition insert (col : t) (x : Field) : t :=
  match x with
  | None => insertDefault col
  | Some v =>
      {| nested_column := IColumn.insert (nested_column col) v;
         null_map := null_map col ++ [0%Z] |}
  end.

(** Modelled from the spec: [filter] is declared in the header only.  Section
    4.3: the transformation is applied identically to [nested] and
    [null_map]. *)
Definition filter (col : t) (filt : Filter) (result_size_hint : Z) : Result t :=
  filtered_data ← IColumn.filter (nested_column col) filt result_size_hint;
  filtered_null_map ← ColumnUInt8.filter (null_map col) filt result_size_hint;
  Ok (create filtered_data filtered_null_map).

(** Modelled from the spec: [permute] is declared in the header only
    (section 4.3). *)
Definition permute (col : t) (perm : Permutation) (limit : nat) : Result t :=
  permuted_data ← IColumn.permute (nested_column col) perm limit;
  permuted_null_map ← ColumnUInt8.permute (null_map col) perm limit;
  Ok (create permuted_data permuted_null_map).

(** Modelled from the spec: [replicate] is declared in the header only
    (section 4.3). *)
Definition replicate (col : t) (offsets : Offsets) : Result t :=
  replicated_data ← IColumn.replicate (nested_column col) offsets;
  replicated_null_map ← ColumnUInt8.replicate (null_map col) offsets;
  Ok (create replicated_data replicated_null_map).

(** Logical negation of a byte. *)
Definition negate (b : Z) : Z := if (b =? 0)%Z then 1%Z else 0%Z.

(** Modelled from the spec: [applyNullMapImpl<negative>] is declared in the
    header only.  Section 4.1: element-wise OR of the external map (or of its
    logical negation) into the null map; sizes must match, otherwise a
    size-mismatch failure. *)
Definition applyNullMapImpl (negative : bool) (col : t) (map : NullMap) : Result t :=
  let arr1 := null_map col in
  let arr2 := map in
  if decide (length arr1 = length arr2)
  then Ok {| nested_column := nested_column col;
             null_map := zip_with (λ a b, Z.lor a (if negative then negate b else b))
                                  arr1 arr2 |}
  else Throw SizeMismatch.

Definition applyNullMap (col : t) (map : NullMap) : Result t :=
  applyNullMapImpl false col map.

Definition applyNegatedNullMap (col : t) (map : NullMap) : Result t :=
  applyNullMapImpl true col map.

(** [applyNullMap(const ColumnNullable & other)] *)
Definition applyNullMapOf (col other : t) : Result t :=
  applyNullMap col (null_map other).

(** Modelled from the spec: [compareAtImpl] is declared in the header only.
    Section 4.2: both rows NULL compare equal; exactly one NULL is ordered by
    [null_direction_hint] alone; otherwise the nested store compares. *)
Definition compareAtImpl (col : t) (n m : nat) (rhs : t) (null_direction_hint : Z)
  : option Z :=
  lval_is_null ← isNullAt col n;
  rval_is_null ← isNullAt rhs m;
  if (lval_is_null : bool) || (rval_is_null : bool) then
    if lval_is_null && rval_is_null then Some 0%Z
    else Some (if lval_is_null then null_direction_hint else (- null_direction_hint)%Z)
  else
    Some (IColumn.compareAt (nested_column col) n m (nested_column rhs)
            null_direction_hint).

Definition compareAt (col : t) (n m : nat) (rhs : t) (null_direction_hint : Z)
  : option Z :=
  compareAtImpl col n m rhs null_direction_hint.

(** Modelled from the spec: [serializeValueIntoArena] is declared in the
    header only.  Section 4.4: a 1-byte null indicator, then, only if the row
    is not NULL, the nested store's serialization.  The arena is the list of
    bytes written so far; the result is the written span and the arena after
    the write. *)
Definition serializeValueIntoArena (col : t) (n : nat) (arena : list Z)
  : option (list Z * list Z) :=
  indicator ← null_map col !! n;
  let ref :=
    if nonzero indicator then [indicator]
    else indicator :: IColumn.serializeValueIntoArena (nested_column col) n in
  Some (ref, arena ++ ref).

(** Modelled from the spec: [deserializeAndInsertFromArena] is declared in the
    header only.  Section 4.4: read the indicator; if NULL append a default
    value and mark the row NULL, otherwise let the nested store decode and
    append a non-NULL row; return the position after the consumed bytes.  A
    position is the sequence of bytes from that position on. *)
Definition deserializeAndInsertFromArena (col : t) (pos : list Z)
  : option (t * list Z) :=
  match pos with
  | [] => None
  | val :: pos =>
      if nonzero val then
        Some ({| nested_column := IColumn.insertDefault (nested_column col);
                 null_map := null_map col ++ [1%Z] |}, pos)
      else
        '(nested, pos) ← IColumn.deserializeAndInsertFromArena (nested_column col) pos;
        Some ({| nested_column := nested; null_map := null_map col ++ [0%Z] |}, pos)
  end.

(** *** Observations used to state the properties *)

(** The raw content of a column: for every row the null flag and the payload
    held by the nested store. *)
Definition rows (col : t) : list (bool * V) :=
  zip (nonzero <$> null_map col) (IColumn.values (nested_column col)).

(** The logical [(isNullAt, value)] pair of a row; the value of a NULL row is
    the NULL field, whatever the payload. *)
Definition rowAt (col : t) (n : nat) : option (bool * Field) :=
  is_null ← isNullAt col n;
  v ← IColumn.values (nested_column col) !! n;
  Some (is_null, if is_null : bool then None else Some v).

End Wrapper.

Arguments t C : clear implicits.
Arguments Column C : clear implicits.
Arguments getDataAt {C V R _} EMPTY_STRING_REF col n.

(** *** Names and type predicates *)

(** The remaining inline members forward to virtual functions of the nested
    column that the wrapper does not otherwise use ([getName],
    [valuesHaveFixedSize], [sizeOfValueIfFixed], [isDummy],
    [isCollationSupported]) and to the null-map column's
    [sizeOfValueIfFixed]; those are parameters here. *)
Section Introspection.
Context {C : Type}.
Variable nested_getName : C → string.
Variable nested_valuesHaveFixedSize : C → bool.
Variable nested_sizeOfValueIfFixed : C → nat.
Variable nested_isDummy : C → bool.
Variable nested_isCollationSupported : C → bool.
Variable null_map_sizeOfValueIfFixed : NullMap → nat.

(** [const char * getFamilyName() const { return "Nullable"; }] *)
Definition getFamilyName (col : t C) : string := "Nullable".

(** [std::string getName() const
      { return "Nullable(" + nested_column->getName() + ")"; }] *)
Definition getName (col : t C) : string :=
  ("Nullable(" +:+ nested_getName (nested_column col)) +:+ ")".

(** [bool isFixedAndContiguous() const { return false; }] *)
Definition isFixedAndContiguous (col : t C) : bool := false.

(** [bool valuesHaveFixedSize() const
      { return nested_column->valuesHaveFixedSize(); }] *)
Definition valuesHaveFixedSize (col : t C) : bool :=
  nested_valuesHaveFixedSize (nested_column col).

(** [size_t sizeOfValueIfFixed() const
      { return null_map->sizeOfValueIfFixed() + nested_column->sizeOfValueIfFixed(); }] *)
Definition sizeOfValueIfFixed (col : t C) : nat :=
  null_map_sizeOfValueIfFixed (null_map col)
  + nested_sizeOfValueIfFixed (nested_column col).

(** [bool onlyNull() const { return nested_column->isDummy(); }] *)
Definition onlyNull (col : t C) : bool :=
  nested_isDummy (nested_column col).

(** [bool isCollationSupported() const
      { return nested_column->isCollationSupported(); }] *)
Definition isCollationSupported (col : t C) : bool :=
  nested_isCollationSupported (nested_column col).

End Introspection.

End ColumnNullable.

(** ** A small value store *)

(** Rows are integers kept in a list; a value is serialized as one cell.  This
    store satisfies the [IColumn.Store] laws and is the nested column of the
    worked examples. *)
Module ListStore.

Definition getBool (c : list Z) (n : nat) : bool :=
  from_option nonzero false (c !! n).

Definition get64 (c : list Z) (n : nat) : Z :=
  from_option id 0%Z (c !! n).

Definition getDataAt (c : list Z) (n : nat) : list Z :=
  from_option (λ v, [v]) [] (c !! n).

Definition compareAt (c : list Z) (n m : nat) (rhs : list Z) (hint : Z) : Z :=
  match c !! n, rhs !! m with
  | Some a, Some b =>
      match (a ?= b)%Z with Lt => (-1)%Z | Eq => 0%Z | Gt => 1%Z end
  | _, _ => 0%Z
  end.

Definition deserializeAndInsertFromArena (c : list Z) (pos : list Z)
  : option (list Z * list Z) :=
  match pos with
  | [] => None
  | v :: pos => Some (c ++ [v], pos)
  end.

Definition serializeValueIntoArena (c : list Z) (n : nat) : list Z :=
  from_option (λ v, [v]) [] (c !! n).

Definition EMPTY_STRING_REF : list Z := [].

(** A naming of the columns of this store: the empty one and the others. *)
Definition getName (c : list Z) : string :=
  match c with
  | [] => "Nothing"
  | _ => "Int64"
  end.

(** The nullable column [5, NULL, 9]; the NULL row carries the payload 7. *)
Definition col_5_null_9 : ColumnNullable.t (list Z) :=
  ColumnNullable.create [5; 7; 9]%Z [0; 1; 0]%Z.

(** The empty nullable column. *)
Definition col_empty : ColumnNullable.t (list Z) :=
  ColumnNullable.create [] [].

(** The nullable column [5, 7, NULL], with null map [0, 0, 1]. *)
Definition col_5_7_null : ColumnNullable.t (list Z) :=
  ColumnNullable.create [5; 7; 9]%Z [0; 0; 1]%Z.

End ListStore.

(** * Properties *)

(** ** Row-wise transformations *)

Section RowLemmas.
Context {A B : Type}.
Implicit Types (filt : Filter) (idx : list nat) (offsets : Offsets).

Lemma length_filter_rows filt (data : list A) :
  length filt = length data →
  length (filter_rows filt data) = count_true filt.
Proof.
  unfold count_true. revert data.
  induction filt as [|f filt IH]; intros [|x data] Hlen; simplify_eq/=; [done|].
  rewrite filter_cons. destruct (nonzero f) eqn:Hf.
  - rewrite decide_True by done. simpl. by rewrite IH.
  - rewrite decide_False by done. by apply IH.
Qed.

Lemma filter_rows_zip filt (l : list A) (k : list B) :
  filter_rows filt (zip l k) = zip (filter_rows filt l) (filter_rows filt k).
Proof.
  revert l k. induction filt as [|f filt IH]; intros [|x l] [|y k]; simpl; try done.
  - destruct (nonzero f); [done|]. by destruct (filter_rows filt l).
  - destruct (nonzero f); simpl; by rewrite IH.
Qed.

Lemma filter_rows_fmap (g : A → B) filt (l : list A) :
  filter_rows filt (g <$> l) = g <$> filter_rows filt l.
Proof.
  revert l. induction filt as [|f filt IH]; intros [|x l]; simpl; try done.
  destruct (nonzero f); simpl; by rewrite IH.
Qed.

Lemma gather_rows_length idx (data rows : list A) :
  gather_rows idx data = Some rows → length rows = length idx.
Proof. unfold gather_rows. intros H. symmetry. by eapply length_mapM. Qed.

Lemma gather_rows_lookup idx (data rows : list A) i p :
  gather_rows idx data = Some rows → idx !! i = Some p → rows !! i = data !! p.
Proof.
  unfold gather_rows. rewrite mapM_Some. intros HF Hi.
  destruct (Forall2_lookup_l _ _ _ _ _ HF Hi) as (y & Hy & Hp). congruence.
Qed.

Lemma gather_rows_is_Some idx (data : list A) :
  Forall (λ p, p < length data) idx → is_Some (gather_rows idx data).
Proof.
  unfold gather_rows. intros HF. apply mapM_is_Some.
  eapply Forall_impl; [exact HF|]. intros p Hp. by apply lookup_lt_is_Some.
Qed.

Lemma gather_rows_fmap (g : A → B) idx (data rows : list A) :
  gather_rows idx data = Some rows →
  gather_rows idx (g <$> data) = Some (g <$> rows).
Proof.
  unfold gather_rows. rewrite !mapM_Some. intros HF.
  apply Forall2_fmap_r. eapply Forall2_impl; [exact HF|].
  intros p y Hp. simpl in *. by rewrite list_lookup_fmap, Hp.
Qed.

Lemma gather_rows_zip idx (l rl : list A) (k rk : list B) :
  gather_rows idx l = Some rl → gather_rows idx k = Some rk →
  gather_rows idx (zip l k) = Some (zip rl rk).
Proof.
  unfold gather_rows. rewrite !mapM_Some. revert rl rk.
  induction idx as [|p idx IH]; intros rl rk Hl Hk.
  - apply Forall2_nil_inv_l in Hl as ->. apply Forall2_nil_inv_l in Hk as ->.
    constructor.
  - apply Forall2_cons_inv_l in Hl as (x & rl' & Hx & Hl & ->).
    apply Forall2_cons_inv_l in Hk as (y & rk' & Hy & Hk & ->).
    simpl. constructor; [|by apply IH].
    rewrite lookup_zip_with, Hx. simpl. by rewrite Hy.
Qed.

Lemma length_replicate_from prev offsets (l : list A) (k : list B) :
  length l = length k →
  length (replicate_from prev offsets l) = length (replicate_from prev offsets k).
Proof.
  revert prev l k.
  induction offsets as [|o offsets IH]; intros prev [|x l] [|y k] Hlen;
    simplify_eq/=; try done.
  rewrite !length_app, !length_replicate. f_equal. by apply IH.
Qed.

Lemma count_true_cons (f : Z) filt :
  count_true (f :: filt) = (if nonzero f then 1 else 0) + count_true filt.
Proof.
  unfold count_true. rewrite filter_cons. destruct (nonzero f).
  - by rewrite decide_True.
  - by rewrite decide_False.
Qed.

(** A kept source row [i] lands at the destination row numbered by the kept
    rows before it. *)
Lemma filter_rows_lookup filt (data : list A) i f :
  length filt = length data → filt !! i = Some f → nonzero f = true →
  filter_rows filt data !! count_true (take i filt) = data !! i.
Proof.
  revert data i.
  induction filt as [|f0 filt IH]; intros [|x data] i Hlen Hi Hf;
    simplify_eq/=; try done.
  destruct i as [|i]; simplify_eq/=.
  - by rewrite Hf.
  - rewrite count_true_cons. destruct (nonzero f0); simpl; by apply IH.
Qed.

End RowLemmas.

(** ** The nullable wrapper *)

Module ColumnNullableFacts.
Import ColumnNullable.

Section Facts.
Context {C V R : Type} `{!IColumn.Store C V R}.
Variable EMPTY_STRING_REF : R.
Implicit Types (col rhs dst : t C) (n m row : nat) (byte : Z).

Lemma nonzero_spec byte : nonzero byte = bool_decide (byte ≠ 0%Z).
Proof.
  unfold nonzero. destruct (Z.eqb_spec byte 0).
  - by rewrite bool_decide_false by tauto.
  - by rewrite bool_decide_true.
Qed.

Lemma isNullAt_lookup col n byte :
  null_map col !! n = Some byte → isNullAt col n = Some (nonzero byte).
Proof. unfold isNullAt. by intros ->. Qed.

Lemma isNullAt_inv col n b :
  isNullAt col n = Some b → ∃ byte, null_map col !! n = Some byte ∧ nonzero byte = b.
Proof.
  unfold isNullAt. destruct (null_map col !! n) as [byte|]; [|done].
  intros [= <-]. eauto.
Qed.

Lemma consistent_lookup col n :
  consistent col → n < size col → is_Some (null_map col !! n).
Proof.
  unfold consistent, size. intros Hc Hn. apply lookup_lt_is_Some. lia.
Qed.

Lemma length_rows col :
  consistent col → length (rows col) = size col.
Proof.
  unfold consistent, size, rows. intros Hc.
  rewrite length_zip_with, length_fmap, <- IColumn.size_values. lia.
Qed.

Lemma rows_lookup col n b v :
  rows col !! n = Some (b, v) ↔
  isNullAt col n = Some b ∧ IColumn.values (nested_column col) !! n = Some v.
Proof.
  unfold rows, isNullAt. rewrite lookup_zip_with.
  rewrite list_lookup_fmap.
  destruct (null_map col !! n) as [byte|]; simpl; [|by split; [|intros []]].
  destruct (IColumn.values (nested_column col) !! n); simpl.
  - split; [by intros [= <- <-]|by intros [[= <-] [= <-]]].
  - by split; [|intros []].
Qed.

Lemma insertDefault_consistent col :
  consistent col → consistent (insertDefault col).
Proof.
  unfold consistent. simpl. intros Hc.
  rewrite IColumn.size_values, IColumn.values_insertDefault, !length_app.
  rewrite <- IColumn.size_values. simpl. lia.
Qed.

(** C7: for a row below [size()], [isNullAt] reads inside the null map and
    answers true exactly when the byte of that row is not zero. *)
Theorem isNullAt_iff_byte_nonzero col row :
  consistent col → row < size col →
  ∃ byte, null_map col !! row = Some byte
          ∧ isNullAt col row = Some (bool_decide (byte ≠ 0%Z)).
Proof.
  intros Hc Hrow. destruct (consistent_lookup col row Hc Hrow) as [byte Hb].
  exists byte. split; [done|]. rewrite <- nonzero_spec. by apply isNullAt_lookup.
Qed.

(** C6: [insertDefault] appends the nested store's default value to the nested
    column and the byte 1 to the null map; on an empty column the result has
    one row, which is NULL and whose payload is the default value. *)
Theorem insertDefault_appends_null col :
  IColumn.values (nested_column (insertDefault col))
    = IColumn.values (nested_column col) ++ [IColumn.default]
  ∧ null_map (insertDefault col) = null_map col ++ [1%Z]
  ∧ (consistent col → size col = 0 →
     size (insertDefault col) = 1
     ∧ isNullAt (insertDefault col) 0 = Some true
     ∧ IColumn.values (nested_column (insertDefault col)) !! 0
       = Some IColumn.default).
Proof.
  split; [apply IColumn.values_insertDefault|]. split; [done|].
  intros Hc Hempty. unfold consistent, size in *.
  assert (IColumn.values (nested_column col) = []) as Hvals.
  { apply length_zero_iff_nil. by rewrite <- IColumn.size_values. }
  assert (null_map col = []) as Hmap.
  { apply length_zero_iff_nil. lia. }
  unfold isNullAt. simpl.
  rewrite IColumn.size_values, IColumn.values_insertDefault, Hvals, Hmap. done.
Qed.

(** C8: [structureEquals] is true exactly when [rhs] is a nullable wrapper
    whose nested column is structurally equal to this one's; replacing either
    null map does not change the answer. *)
Theorem structureEquals_iff col (rhs : Column C) :
  (structureEquals col rhs = true ↔
   ∃ rhs_nullable, rhs = Nullable rhs_nullable
     ∧ IColumn.structureEquals (nested_column col) (nested_column rhs_nullable) = true)
  ∧ (∀ rhs_nullable (map1 map2 : NullMap),
       structureEquals (create (nested_column col) map1)
         (Nullable (create (nested_column rhs_nullable) map2))
       = structureEquals col (Nullable rhs_nullable)).
Proof.
  split; [|done]. destruct rhs as [r|c]; simpl.
  - split; [eauto|]. by intros (r' & [= <-] & ?).
  - split; [done|]. by intros (r' & ? & ?).
Qed.

(** C9: for a row of the column, [getDataAt] is [EMPTY_STRING_REF] when the
    row is NULL and the nested column's [getDataAt] when it is not. *)
Theorem getDataAt_null_or_nested col n :
  consistent col → n < size col →
  (isNullAt col n = Some true
   ∧ getDataAt EMPTY_STRING_REF col n = Some EMPTY_STRING_REF)
  ∨ (isNullAt col n = Some false
     ∧ getDataAt EMPTY_STRING_REF col n
       = Some (IColumn.getDataAt (nested_column col) n)).
Proof.
  intros Hc Hn. destruct (consistent_lookup col n Hc Hn) as [byte Hb].
  unfold getDataAt. rewrite (isNullAt_lookup _ _ _ Hb). simpl.
  destruct (nonzero byte); auto.
Qed.

(** C10: [get64] is the nested column's [get64] whatever the null map holds,
    also on a NULL row; [getBool] consults the null map and is false on every
    NULL row (and the nested column's [getBool] on the others). *)
Theorem get64_ignores_null_map_getBool_checks col n :
  get64 col n = IColumn.get64 (nested_column col) n
  ∧ (∀ map : NullMap, get64 (create (nested_column col) map) n = get64 col n)
  ∧ (isNullAt col n = Some true →
     getBool col n = Some false
     ∧ get64 col n = IColumn.get64 (nested_column col) n)
  ∧ (isNullAt col n = Some false →
     getBool col n = Some (IColumn.getBool (nested_column col) n)).
Proof.
  split; [done|]. split; [done|]. unfold getBool.
  split; intros Hnull; by rewrite Hnull.
Qed.

(** *** Null-map combination *)

Lemma nonzero_lor (a b : Z) : nonzero (Z.lor a b) = nonzero a || nonzero b.
Proof.
  unfold nonzero.
  destruct (Z.eqb_spec (Z.lor a b) 0) as [H0|H0].
  - apply Z.lor_eq_0_iff in H0 as [-> ->]. done.
  - destruct (Z.eqb_spec a 0) as [->|]; [|done].
    destruct (Z.eqb_spec b 0) as [->|]; [|done]. done.
Qed.

Lemma nonzero_negate (b : Z) : nonzero (negate b) = negb (nonzero b).
Proof. unfold nonzero, negate. by destruct (Z.eqb_spec b 0). Qed.

Lemma applyNullMapImpl_Ok negative col (map : NullMap) :
  length (null_map col) = length map →
  applyNullMapImpl negative col map
  = Ok (create (nested_column col)
          (zip_with Z.lor (null_map col)
             ((λ b, if negative then negate b else b) <$> map))).
Proof.
  intros Hlen. unfold applyNullMapImpl. simpl.
  rewrite decide_True by done. by rewrite zip_with_fmap_r.
Qed.

Lemma isNullAt_zip_lor (nested : C) (arr1 arr2 : NullMap) n :
  isNullAt (create nested (zip_with Z.lor arr1 arr2)) n
  = (a ← nonzero <$> arr1 !! n; b ← nonzero <$> arr2 !! n; Some (a || b)).
Proof.
  unfold isNullAt. simpl. rewrite lookup_zip_with.
  destruct (arr1 !! n) as [a|]; [|done]. simpl.
  destruct (arr2 !! n) as [b|]; [|done]. simpl. by rewrite nonzero_lor.
Qed.

(** C5: with an external map as long as the column, [applyNullMap] replaces
    the null map by its element-wise OR with the external map and
    [applyNegatedNullMap] by its OR with the logical negation of the external
    map, both leaving the nested column untouched; with any other length both
    fail with a size-mismatch error.  Map [0,1,0] applied to null map [0,0,1]
    gives [0,1,1]. *)
Theorem applyNullMap_or_else_size_mismatch col (map : NullMap) :
  consistent col →
  (length map = size col →
   ∃ col1 col2,
     applyNullMap col map = Ok col1
     ∧ applyNegatedNullMap col map = Ok col2
     ∧ nested_column col1 = nested_column col
     ∧ nested_column col2 = nested_column col
     ∧ null_map col1 = zip_with Z.lor (null_map col) map
     ∧ null_map col2 = zip_with Z.lor (null_map col) (negate <$> map)
     ∧ length (null_map col1) = size col
     ∧ length (null_map col2) = size col
     ∧ (∀ n, isNullAt col1 n
             = (a ← isNullAt col n; b ← nonzero <$> map !! n; Some (a || b)))
     ∧ (∀ n, isNullAt col2 n
             = (a ← isNullAt col n; b ← nonzero <$> map !! n; Some (a || negb b))))
  ∧ (length map ≠ size col →
     applyNullMap col map = Throw SizeMismatch
     ∧ applyNegatedNullMap col map = Throw SizeMismatch)
  ∧ (null_map col = [0; 0; 1]%Z →
     applyNullMap col [0; 1; 0]%Z
     = Ok (create (nested_column col) [0; 1; 1]%Z)).
Proof.
  intros Hc. unfold consistent, size in *. repeat apply conj.
  - intros Hlen.
    assert (length (null_map col) = length map) as Hlen' by lia.
    eexists _, _. unfold applyNullMap, applyNegatedNullMap.
    rewrite !applyNullMapImpl_Ok by done. simpl.
    rewrite list_fmap_id.
    repeat apply conj; try done.
    + simpl. rewrite length_zip_with. lia.
    + simpl. rewrite length_zip_with, length_fmap. lia.
    + intros n. by rewrite isNullAt_zip_lor.
    + intros n. rewrite isNullAt_zip_lor, list_lookup_fmap.
      unfold isNullAt. destruct (null_map col !! n); [|done]. simpl.
      destruct (map !! n); [|done]. simpl. by rewrite nonzero_negate.
  - intros Hlen. unfold applyNullMap, applyNegatedNullMap, applyNullMapImpl.
    simpl. rewrite !decide_False by lia. by split.
  - intros Hmap. unfold applyNullMap, applyNullMapImpl. simpl. by rewrite Hmap.
Qed.

(** *** Comparison *)

(** C2: for rows of the two columns, [compareAt] is 0 when both rows are NULL;
    when exactly one row is NULL that row is the lesser one under the
    nulls-first hint and the greater one under the nulls-last hint, whatever
    the nested store holds; when neither is NULL the result is the nested
    store's [compareAt]. *)
Theorem compareAt_null_policy col rhs n m (null_direction_hint : Z) :
  consistent col → consistent rhs → n < size col → m < size rhs →
  ∃ lval_is_null rval_is_null res,
    isNullAt col n = Some lval_is_null
    ∧ isNullAt rhs m = Some rval_is_null
    ∧ compareAt col n m rhs null_direction_hint = Some res
    ∧ (lval_is_null = true → rval_is_null = true → res = 0%Z)
    ∧ (lval_is_null = true → rval_is_null = false →
       (null_direction_hint = nulls_first → (res < 0)%Z)
       ∧ (null_direction_hint = nulls_last → (0 < res)%Z))
    ∧ (lval_is_null = false → rval_is_null = true →
       (null_direction_hint = nulls_first → (0 < res)%Z)
       ∧ (null_direction_hint = nulls_last → (res < 0)%Z))
    ∧ (lval_is_null = false → rval_is_null = false →
       res = IColumn.compareAt (nested_column col) n m (nested_column rhs)
               null_direction_hint).
Proof.
  intros Hc Hrhs Hn Hm.
  destruct (consistent_lookup col n Hc Hn) as [a Ha].
  destruct (consistent_lookup rhs m Hrhs Hm) as [b Hb].
  apply isNullAt_lookup in Ha, Hb.
  unfold compareAt, compareAtImpl. rewrite Ha, Hb. simpl.
  unfold nulls_first, nulls_last.
  destruct (nonzero a), (nonzero b); simpl; eexists _, _, _;
    (split; [done|]); (split; [done|]); (split; [done|]);
    repeat split; intros; simplify_eq; done || lia.
Qed.

(** *** Serialization *)

Lemma rowAt_lookup col n byte v :
  null_map col !! n = Some byte →
  IColumn.values (nested_column col) !! n = Some v →
  rowAt col n = Some (nonzero byte, if nonzero byte then None else Some v).
Proof.
  intros Hb Hv. unfold rowAt. rewrite (isNullAt_lookup _ _ _ Hb). simpl.
  by rewrite Hv.
Qed.

Lemma rowAt_app (nested nested' : C) (map : NullMap) byte v i :
  IColumn.values nested' = IColumn.values nested ++ [v] →
  i < length map → i < length (IColumn.values nested) →
  rowAt (create nested' (map ++ [byte])) i = rowAt (create nested map) i.
Proof.
  intros Hv Hi1 Hi2. unfold rowAt, isNullAt. simpl.
  by rewrite Hv, !lookup_app_l by done.
Qed.

Lemma rowAt_last (nested nested' : C) (map : NullMap) byte v :
  IColumn.values nested' = IColumn.values nested ++ [v] →
  length (IColumn.values nested) = length map →
  rowAt (create nested' (map ++ [byte])) (length map)
  = Some (nonzero byte, if nonzero byte then None else Some v).
Proof.
  intros Hv Hlen. apply rowAt_lookup; simpl.
  - rewrite lookup_app_r by lia. by rewrite Nat.sub_diag.
  - rewrite Hv, lookup_app_r by lia. by rewrite Hlen, Nat.sub_diag.
Qed.

(** C3: serializing row [r] writes the null indicator byte followed, only for
    a non-NULL row, by the nested store's serialization; deserializing from
    the start of the written span appends exactly one row to the receiving
    column, whose [(isNullAt, value)] pair is that of row [r], and returns the
    position after the span.  A NULL row comes back as a default payload
    marked NULL. *)
Theorem serialize_deserialize_roundtrip col r dst (arena rest : list Z) :
  consistent col → consistent dst → r < size col →
  ∃ indicator ref dst' pair,
    null_map col !! r = Some indicator
    ∧ serializeValueIntoArena col r arena = Some (ref, arena ++ ref)
    ∧ ref = indicator ::
              (if nonzero indicator then []
               else IColumn.serializeValueIntoArena (nested_column col) r)
    ∧ deserializeAndInsertFromArena dst (ref ++ rest) = Some (dst', rest)
    ∧ size dst' = S (size dst)
    ∧ consistent dst'
    ∧ rowAt col r = Some pair
    ∧ rowAt dst' (size dst) = Some pair
    ∧ (isNullAt col r = Some true →
       isNullAt dst' (size dst) = Some true
       ∧ IColumn.values (nested_column dst') !! size dst = Some IColumn.default)
    ∧ (∀ i, i < size dst → rowAt dst' i = rowAt dst i).
Proof.
  intros Hc Hd Hr. unfold consistent, size in *.
  destruct (consistent_lookup col r Hc Hr) as [indicator Hb].
  destruct (lookup_lt_is_Some_2 (IColumn.values (nested_column col)) r) as [v Hv].
  { by rewrite <- IColumn.size_values. }
  pose proof (IColumn.size_values (nested_column dst)) as Hsz.
  destruct dst as [dnested dmap]. simpl in *.
  unfold serializeValueIntoArena. rewrite Hb. simpl.
  rewrite (rowAt_lookup _ _ _ _ Hb Hv), (isNullAt_lookup _ _ _ Hb).
  destruct (nonzero indicator) eqn:Hnull.
  - eexists indicator, _, _, _. rewrite Hnull.
    split; [done|]. split; [done|]. split; [done|]. simpl. rewrite Hnull.
    pose proof (IColumn.values_insertDefault dnested) as Hins.
    split; [done|]. simpl.
    split; [rewrite IColumn.size_values, Hins, length_app; simpl; lia|].
    split.
    { unfold consistent. simpl.
      rewrite IColumn.size_values, Hins, !length_app. simpl. lia. }
    split; [done|]. rewrite Hd.
    split; [by rewrite (rowAt_last _ _ _ _ _ Hins) by lia|].
    split.
    + intros _. split.
      * unfold isNullAt. simpl. rewrite lookup_app_r by lia.
        by rewrite Nat.sub_diag.
      * rewrite Hins, lookup_app_r by lia.
        assert (length dmap - length (IColumn.values dnested) = 0) as -> by lia.
        done.
    + intros i Hi. apply (rowAt_app _ _ _ _ _ _ Hins); lia.
  - destruct (IColumn.deserialize_serialize (nested_column col) r v dnested rest Hv)
      as (d' & Hdes & Hins).
    eexists indicator, _, _, _. rewrite Hnull.
    split; [done|]. split; [done|]. split; [done|].
    simpl. rewrite Hnull, Hdes. simpl.
    split; [done|]. simpl.
    split; [rewrite IColumn.size_values, Hins, length_app; simpl; lia|].
    split.
    { unfold consistent. simpl.
      rewrite IColumn.size_values, Hins, !length_app. simpl. lia. }
    split; [done|]. rewrite Hd.
    split; [by rewrite (rowAt_last _ _ _ _ _ Hins) by lia|].
    split; [done|].
    intros i Hi. apply (rowAt_app _ _ _ _ _ _ Hins); lia.
Qed.

(** *** Filter and permute *)

Lemma filter_Ok col (filt : Filter) (hint : Z) :
  consistent col → length filt = size col →
  ∃ col', filter col filt hint = Ok col'
    ∧ IColumn.values (nested_column col')
      = filter_rows filt (IColumn.values (nested_column col))
    ∧ null_map col' = filter_rows filt (null_map col).
Proof.
  unfold consistent, size. intros Hc Hlen.
  destruct (IColumn.values_filter (nested_column col) filt hint Hlen)
    as (c' & Hf & Hv).
  eexists. unfold filter, ColumnUInt8.filter. rewrite Hf. simpl.
  rewrite decide_True by lia. simpl. done.
Qed.

Lemma filter_inv col (filt : Filter) (hint : Z) col' :
  consistent col → filter col filt hint = Ok col' → length filt = size col.
Proof.
  unfold consistent, size, filter, ColumnUInt8.filter. intros Hc.
  destruct (IColumn.filter _ _ _); simpl; [|done].
  destruct (decide _); simpl; [lia|done].
Qed.

Lemma permute_Ok col (perm : Permutation) (limit : nat) :
  consistent col →
  permute_limit (size col) limit ≤ length perm →
  Forall (λ p, p < size col) (take (permute_limit (size col) limit) perm) →
  ∃ col' values' map',
    permute col perm limit = Ok col'
    ∧ IColumn.values (nested_column col') = values'
    ∧ null_map col' = map'
    ∧ gather_rows (take (permute_limit (size col) limit) perm)
        (IColumn.values (nested_column col)) = Some values'
    ∧ gather_rows (take (permute_limit (size col) limit) perm)
        (null_map col) = Some map'.
Proof.
  unfold consistent, size. intros Hc Hlen Hall.
  destruct (gather_rows_is_Some (take (permute_limit (IColumn.size (nested_column col)) limit) perm)
              (IColumn.values (nested_column col))) as [values' Hvalues].
  { by rewrite <- IColumn.size_values. }
  destruct (gather_rows_is_Some (take (permute_limit (IColumn.size (nested_column col)) limit) perm)
              (null_map col)) as [map' Hmap].
  { by rewrite <- Hc. }
  destruct (IColumn.values_permute (nested_column col) perm limit values' Hlen Hvalues)
    as (c' & Hp & Hv).
  exists (create c' map'), values', map'.
  unfold permute, ColumnUInt8.permute. rewrite Hp. simpl.
  rewrite <- Hc. rewrite decide_True by done. rewrite Hmap. simpl. done.
Qed.

Lemma rows_gather (nested nested' : C) (map map' : NullMap) (idx : list nat) :
  gather_rows idx (IColumn.values nested) = Some (IColumn.values nested') →
  gather_rows idx map = Some map' →
  gather_rows idx (rows (create nested map)) = Some (rows (create nested' map')).
Proof.
  intros Hv Hm. unfold rows. simpl.
  apply gather_rows_zip; [|done]. by apply gather_rows_fmap.
Qed.

(** C4: with a mask as long as the column, [filter] returns a column with as
    many rows as the mask has truthy entries; its rows are the kept rows of
    the source, each with its null flag and value, in source order (kept
    source row [i] is the destination row numbered by the kept rows before
    it), and the size hint has no influence.  With a permutation of all rows,
    [permute(perm, 0)] returns a column of the same size whose row [i] is the
    source row [perm[i]], null flag and value together. *)
Theorem filter_permute_preserve_rows col :
  consistent col →
  (∀ (filt : Filter) (hint : Z),
     length filt = size col →
     ∃ col',
       filter col filt hint = Ok col'
       ∧ size col' = count_true filt
       ∧ consistent col'
       ∧ rows col' = filter_rows filt (rows col)
       ∧ (∀ i f, filt !! i = Some f → nonzero f = true →
            rows col' !! count_true (take i filt) = rows col !! i
            ∧ is_Some (rows col !! i))
       ∧ (∀ hint2 : Z, ∃ col2,
            filter col filt hint2 = Ok col2
            ∧ size col2 = size col' ∧ rows col2 = rows col'))
  ∧ (∀ perm : Permutation,
       perm ≡ₚ seq 0 (size col) →
       ∃ col',
         permute col perm 0 = Ok col'
         ∧ size col' = size col
         ∧ consistent col'
         ∧ (∀ i p, perm !! i = Some p →
              rows col' !! i = rows col !! p ∧ is_Some (rows col !! p))).
Proof.
  intros Hc. split.
  - intros filt hint Hlen.
    assert (∀ h, ∃ col', filter col filt h = Ok col'
              ∧ size col' = count_true filt ∧ consistent col'
              ∧ rows col' = filter_rows filt (rows col)) as Hall.
    { intros h. destruct (filter_Ok col filt h Hc Hlen) as (col' & Hf & Hv & Hm).
      exists col'. split; [done|].
      unfold consistent, size in *.
      rewrite IColumn.size_values, Hv, Hm.
      rewrite !length_filter_rows
        by (rewrite <- ?IColumn.size_values; lia).
      split; [done|]. split; [done|].
      unfold rows. by rewrite Hv, Hm, <- filter_rows_fmap, <- filter_rows_zip. }
    destruct (Hall hint) as (col' & Hf & Hsize & Hc' & Hrows).
    exists col'. split; [done|]. split; [done|]. split; [done|]. split; [done|].
    split.
    + intros i f Hi Hf1. rewrite Hrows. split.
      * apply (filter_rows_lookup filt (rows col) i f); [|done..].
        by rewrite length_rows.
      * apply lookup_lt_is_Some. rewrite length_rows by done.
        rewrite <- Hlen. by eapply lookup_lt_Some.
    + intros hint2. destruct (Hall hint2) as (col2 & Hf2 & Hsize2 & _ & Hrows2).
      exists col2. split; [done|]. split; congruence.
  - intros perm Hperm.
    assert (length perm = size col) as Hlen.
    { by rewrite Hperm, length_seq. }
    assert (Forall (λ p, p < size col) perm) as Hall.
    { rewrite Hperm. apply Forall_forall. intros p Hp.
      apply elem_of_seq in Hp. lia. }
    assert (permute_limit (size col) 0 = size col) as Hlimit by done.
    destruct (permute_Ok col perm 0 Hc) as (col' & values' & map' & Hp & Hv & Hm & Hgv & Hgm).
    { rewrite Hlimit. lia. }
    { rewrite Hlimit, take_ge by lia. done. }
    rewrite Hlimit, take_ge in Hgv, Hgm by lia.
    exists col'. split; [done|].
    pose proof (gather_rows_length _ _ _ Hgv) as Hlv.
    pose proof (gather_rows_length _ _ _ Hgm) as Hlm.
    unfold consistent, size in *.
    rewrite IColumn.size_values, Hv, Hm.
    split; [lia|]. split; [lia|].
    intros i p Hi.
    assert (p < length (rows col)) as Hp'.
    { rewrite length_rows by done. unfold size.
      eapply Forall_lookup_1 in Hall; [|exact Hi]. done. }
    split; [|by apply lookup_lt_is_Some].
    destruct col as [nested map], col' as [nested' map'']. simpl in *. subst.
    eapply gather_rows_lookup; [|exact Hi]. by apply rows_gather.
Qed.

(** *** The length invariant *)

Lemma insert_consistent col (x : option V) :
  consistent col → consistent (insert col x).
Proof.
  destruct x as [v|]; [|apply insertDefault_consistent].
  unfold consistent. simpl. intros Hc.
  rewrite IColumn.size_values, IColumn.values_insert, !length_app.
  rewrite <- IColumn.size_values. simpl. lia.
Qed.

Lemma filter_consistent col (filt : Filter) (hint : Z) col' :
  consistent col → filter col filt hint = Ok col' → consistent col'.
Proof.
  intros Hc Hf. pose proof (filter_inv _ _ _ _ Hc Hf) as Hlen.
  destruct (filter_Ok col filt hint Hc Hlen) as (col'' & Hf' & Hv & Hm).
  assert (col'' = col') as -> by congruence.
  unfold consistent, size in *.
  rewrite IColumn.size_values, Hv, Hm.
  rewrite !length_filter_rows by (rewrite <- ?IColumn.size_values; lia). done.
Qed.

Lemma permute_consistent col (perm : Permutation) (limit : nat) col' :
  consistent col → permute col perm limit = Ok col' → consistent col'.
Proof.
  intros Hc Hp.
  assert (permute_limit (size col) limit ≤ length perm
          ∧ Forall (λ p, p < size col) (take (permute_limit (size col) limit) perm))
    as [Hlen Hall].
  { unfold consistent, size, permute, ColumnUInt8.permute in *.
    destruct (IColumn.permute _ _ _); simpl in Hp; [|done].
    rewrite Hc. destruct (decide _) as [Hle|]; simpl in Hp; [|done].
    split; [done|].
    destruct (gather_rows _ (null_map col)) as [map'|] eqn:Hg; simpl in Hp; [|done].
    assert (is_Some (gather_rows (take (permute_limit (length (null_map col)) limit) perm)
                       (null_map col))) as Hsome by eauto.
    unfold gather_rows in Hsome. apply mapM_is_Some in Hsome.
    eapply Forall_impl; [exact Hsome|]. intros p Hp'. simpl in Hp'.
    by apply lookup_lt_is_Some. }
  destruct (permute_Ok col perm limit Hc Hlen Hall)
    as (col'' & values' & map' & Hp' & Hv & Hm & Hgv & Hgm).
  assert (col'' = col') as -> by congruence.
  apply gather_rows_length in Hgv, Hgm.
  unfold consistent. rewrite IColumn.size_values, Hv, Hm. lia.
Qed.

Lemma replicate_Ok col (offsets : Offsets) :
  consistent col → length offsets = size col →
  ∃ col', replicate col offsets = Ok col'
    ∧ IColumn.values (nested_column col')
      = replicate_rows offsets (IColumn.values (nested_column col))
    ∧ null_map col' = replicate_rows offsets (null_map col).
Proof.
  unfold consistent, size. intros Hc Hlen.
  destruct (IColumn.values_replicate (nested_column col) offsets Hlen)
    as (c' & Hr & Hv).
  eexists. unfold replicate, ColumnUInt8.replicate. rewrite Hr. simpl.
  rewrite decide_True by lia. simpl. done.
Qed.

Lemma replicate_consistent col (offsets : Offsets) col' :
  consistent col → replicate col offsets = Ok col' → consistent col'.
Proof.
  intros Hc Hr.
  assert (length offsets = size col) as Hlen.
  { unfold consistent, size, replicate, ColumnUInt8.replicate in *.
    destruct (IColumn.replicate _ _); simpl in Hr; [|done].
    destruct (decide _); simpl in Hr; [lia|done]. }
  destruct (replicate_Ok col offsets Hc Hlen) as (col'' & Hr' & Hv & Hm).
  assert (col'' = col') as -> by congruence.
  unfold consistent, size in *. rewrite IColumn.size_values, Hv, Hm.
  apply length_replicate_from. rewrite <- IColumn.size_values. lia.
Qed.

Lemma applyNullMapImpl_consistent negative col (map : NullMap) col' :
  consistent col → applyNullMapImpl negative col map = Ok col' → consistent col'.
Proof.
  unfold consistent, applyNullMapImpl. simpl. intros Hc.
  destruct (decide _) as [Hlen|]; [|done]. intros [= <-]. simpl.
  rewrite length_zip_with. lia.
Qed.

Lemma deserializeAndInsertFromArena_consistent col (pos : list Z) col' rest :
  consistent col →
  deserializeAndInsertFromArena col pos = Some (col', rest) → consistent col'.
Proof.
  unfold consistent. intros Hc.
  destruct pos as [|val pos]; simpl; [done|].
  destruct (nonzero val).
  - intros [= <- <-]. simpl.
    rewrite IColumn.size_values, IColumn.values_insertDefault, !length_app.
    rewrite <- IColumn.size_values. simpl. lia.
  - destruct (IColumn.deserializeAndInsertFromArena _ _) as [[nested pos']|] eqn:Hd;
      simpl; [|done].
    intros [= <- <-]. simpl.
    destruct (IColumn.values_deserialize _ _ _ _ Hd) as [v Hv].
    rewrite IColumn.size_values, Hv, !length_app.
    rewrite <- IColumn.size_values. simpl. lia.
Qed.

(** C1: on a column whose nested store and null map have the same length,
    [size()] is that common length (zero for both on an empty column), and the
    column produced by [insertDefault], [insert], [filter], [permute],
    [replicate], [applyNullMap], [applyNegatedNullMap] or
    [deserializeAndInsertFromArena] again has a nested store and a null map of
    the same length. *)
Theorem nested_and_null_map_lengths_agree col :
  consistent col →
  (size col = length (null_map col)
   ∧ size col = length (IColumn.values (nested_column col)))
  ∧ (size col = 0 →
     null_map col = [] ∧ IColumn.values (nested_column col) = [])
  ∧ consistent (insertDefault col)
  ∧ (∀ x : option V, consistent (insert col x))
  ∧ (∀ (filt : Filter) (hint : Z) col',
       filter col filt hint = Ok col' → consistent col')
  ∧ (∀ (perm : Permutation) (limit : nat) col',
       permute col perm limit = Ok col' → consistent col')
  ∧ (∀ (offsets : Offsets) col',
       replicate col offsets = Ok col' → consistent col')
  ∧ (∀ (map : NullMap) col',
       applyNullMap col map = Ok col' → consistent col')
  ∧ (∀ (map : NullMap) col',
       applyNegatedNullMap col map = Ok col' → consistent col')
  ∧ (∀ (pos : list Z) col' rest,
       deserializeAndInsertFromArena col pos = Some (col', rest) →
       consistent col').
Proof.
  intros Hc. split.
  { unfold size. split; [exact Hc|apply IColumn.size_values]. }
  split.
  { unfold consistent, size in *. intros Hz. split.
    - apply length_zero_iff_nil. lia.
    - apply length_zero_iff_nil. by rewrite <- IColumn.size_values. }
  split; [by apply insertDefault_consistent|].
  split; [intros x; by apply insert_consistent|].
  split; [intros filt hint col'; by apply filter_consistent|].
  split; [intros perm limit col'; by apply permute_consistent|].
  split; [intros offsets col'; by apply replicate_consistent|].
  split; [intros map col'; by apply applyNullMapImpl_consistent|].
  split; [intros map col'; by apply applyNullMapImpl_consistent|].
  intros pos col' rest. by apply deserializeAndInsertFromArena_consistent.
Qed.

End Facts.
End ColumnNullableFacts.

(** ** The small value store satisfies the interface *)

Module ListStoreFacts.

Lemma values_filter (c : list Z) (filt : Filter) (hint : Z) :
  length filt = length c →
  ∃ c', ColumnUInt8.filter c filt hint = Ok c' ∧ id c' = filter_rows filt (id c).
Proof.
  intros Hlen. eexists. unfold ColumnUInt8.filter.
  by rewrite decide_True by done.
Qed.

Lemma values_permute (c : list Z) (perm : Permutation) (limit : nat) rows :
  permute_limit (length c) limit ≤ length perm →
  gather_rows (take (permute_limit (length c) limit) perm) (id c) = Some rows →
  ∃ c', ColumnUInt8.permute c perm limit = Ok c' ∧ id c' = rows.
Proof.
  intros Hlen Hg. exists rows. unfold ColumnUInt8.permute. simpl in *.
  rewrite decide_True by done. by rewrite Hg.
Qed.

Lemma values_replicate (c : list Z) (offsets : Offsets) :
  length offsets = length c →
  ∃ c', ColumnUInt8.replicate c offsets = Ok c'
        ∧ id c' = replicate_rows offsets (id c).
Proof.
  intros Hlen. eexists. unfold ColumnUInt8.replicate.
  by rewrite decide_True by done.
Qed.

Lemma values_deserialize (c bytes c' rest : list Z) :
  ListStore.deserializeAndInsertFromArena c bytes = Some (c', rest) →
  ∃ v, id c' = id c ++ [v].
Proof. destruct bytes as [|v bytes]; [done|]. intros [= <- <-]. eauto. Qed.

Lemma deserialize_serialize (c : list Z) n v (d rest : list Z) :
  id c !! n = Some v →
  ∃ d', ListStore.deserializeAndInsertFromArena d
          (ListStore.serializeValueIntoArena c n ++ rest) = Some (d', rest)
        ∧ id d' = id d ++ [v].
Proof.
  simpl. intros Hv. unfold ListStore.serializeValueIntoArena. rewrite Hv.
  simpl. eauto.
Qed.

#[global] Instance store : IColumn.Store (list Z) Z (list Z) := {|
  IColumn.values := id;
  IColumn.size := length;
  IColumn.default := 0%Z;
  IColumn.insertDefault c := c ++ [0%Z];
  IColumn.insert c v := c ++ [v];
  IColumn.getBool := ListStore.getBool;
  IColumn.get64 := ListStore.get64;
  IColumn.getDataAt := ListStore.getDataAt;
  IColumn.structureEquals _ _ := true;
  IColumn.compareAt := ListStore.compareAt;
  IColumn.filter := ColumnUInt8.filter;
  IColumn.permute := ColumnUInt8.permute;
  IColumn.replicate := ColumnUInt8.replicate;
  IColumn.serializeValueIntoArena := ListStore.serializeValueIntoArena;
  IColumn.deserializeAndInsertFromArena := ListStore.deserializeAndInsertFromArena;
  IColumn.size_values _ := eq_refl;
  IColumn.values_insertDefault _ := eq_refl;
  IColumn.values_insert _ _ := eq_refl;
  IColumn.values_filter := values_filter;
  IColumn.values_permute := values_permute;
  IColumn.values_replicate := values_replicate;
  IColumn.values_deserialize := values_deserialize;
  IColumn.deserialize_serialize := deserialize_serialize;
|}.

End ListStoreFacts.

(** ** Worked examples on the small value store *)

Module Examples.
Import ListStore ColumnNullable ColumnNullableFacts.

Lemma col_5_null_9_consistent : consistent col_5_null_9.
Proof. reflexivity. Defined.

Lemma col_empty_consistent : consistent col_empty.
Proof. reflexivity. Defined.

Lemma col_5_7_null_consistent : consistent col_5_7_null.
Proof. reflexivity. Defined.

Lemma nested_and_null_map_lengths_agree_witness :
  consistent col_5_null_9
  ∧ size col_5_null_9 = 3
  ∧ consistent (insertDefault col_5_null_9)
  ∧ consistent (insert col_5_null_9 (Some 4%Z))
  ∧ (∀ col', filter col_5_null_9 [1; 0; 1]%Z 0 = Ok col' → consistent col')
  ∧ (∀ col', replicate col_5_null_9 [2; 2; 3] = Ok col' → consistent col').
Proof.
  split; [reflexivity|].
  destruct (nested_and_null_map_lengths_agree col_5_null_9 col_5_null_9_consistent)
    as ([Hsize _] & _ & Hdef & Hins & Hfilter & _ & Hrepl & _).
  split; [exact Hsize|]. split; [exact Hdef|]. split; [exact (Hins _)|].
  split; [exact (Hfilter _ _)|exact (Hrepl _)].
Defined.

Lemma compareAt_null_policy_witness :
  consistent col_5_null_9
  ∧ 0 < size col_5_null_9
  ∧ 1 < size col_5_null_9
  ∧ ∃ res, compareAt col_5_null_9 1 0 col_5_null_9 nulls_first = Some res
           ∧ (res < 0)%Z.
Proof.
  split; [reflexivity|]. split; [vm_compute; lia|]. split; [vm_compute; lia|].
  destruct (compareAt_null_policy col_5_null_9 col_5_null_9 1 0 nulls_first)
    as (l & r & res & Hl & Hr & Hres & _ & Hleft & _);
    [reflexivity | reflexivity | vm_compute; lia | vm_compute; lia |].
  exists res. split; [exact Hres|].
  injection Hl as <-. injection Hr as <-.
  exact (proj1 (Hleft eq_refl eq_refl) eq_refl).
Defined.

Lemma serialize_deserialize_roundtrip_witness :
  consistent col_5_null_9
  ∧ consistent col_empty
  ∧ 0 < size col_5_null_9
  ∧ ∃ ref dst',
      serializeValueIntoArena col_5_null_9 0 [] = Some (ref, ref)
      ∧ deserializeAndInsertFromArena col_empty (ref ++ [42]%Z) = Some (dst', [42]%Z)
      ∧ rowAt dst' 0 = Some (false, Some 5%Z).
Proof.
  split; [reflexivity|]. split; [reflexivity|]. split; [vm_compute; lia|].
  destruct (serialize_deserialize_roundtrip col_5_null_9 0 col_empty [] [42]%Z)
    as (indicator & ref & dst' & pair & _ & Hser & _ & Hdes & _ & _ & Hsrc & Hdst & _);
    [reflexivity | reflexivity | vm_compute; lia |].
  exists ref, dst'. split; [exact Hser|]. split; [exact Hdes|].
  injection Hsrc as <-. exact Hdst.
Defined.

Lemma perm_2_0_1 : [2; 0; 1] ≡ₚ seq 0 3.
Proof.
  simpl. etrans; [apply perm_swap|]. apply perm_skip, perm_swap.
Defined.

Lemma filter_permute_preserve_rows_witness :
  consistent col_5_null_9
  ∧ length [1; 0; 1]%Z = size col_5_null_9
  ∧ [2; 0; 1] ≡ₚ seq 0 (size col_5_null_9)
  ∧ (∃ col', filter col_5_null_9 [1; 0; 1]%Z 0 = Ok col'
             ∧ size col' = 2
             ∧ rows col' = [(false, 5%Z); (false, 9%Z)])
  ∧ (∃ col', permute col_5_null_9 [2; 0; 1] 0 = Ok col'
             ∧ size col' = 3
             ∧ rows col' !! 2 = Some (true, 7%Z)).
Proof.
  split; [reflexivity|]. split; [reflexivity|]. split; [exact perm_2_0_1|].
  destruct (filter_permute_preserve_rows col_5_null_9 col_5_null_9_consistent) as [Hfilter Hpermute].
  split.
  - destruct (Hfilter [1; 0; 1]%Z 0%Z eq_refl)
      as (col' & Hf & Hsize & _ & Hrows & _).
    exists col'. split; [exact Hf|]. split; [exact Hsize|exact Hrows].
  - destruct (Hpermute [2; 0; 1] perm_2_0_1) as (col' & Hp & Hsize & _ & Hrows).
    exists col'. split; [exact Hp|]. split; [exact Hsize|].
    exact (proj1 (Hrows 2 1 eq_refl)).
Defined.

Lemma applyNullMap_or_else_size_mismatch_witness :
  consistent col_5_7_null
  ∧ null_map col_5_7_null = [0; 0; 1]%Z
  ∧ applyNullMap col_5_7_null [0; 1; 0]%Z = Ok (create [5; 7; 9]%Z [0; 1; 1]%Z)
  ∧ length [0; 1]%Z ≠ size col_5_7_null
  ∧ applyNullMap col_5_7_null [0; 1]%Z = Throw SizeMismatch.
Proof.
  split; [reflexivity|]. split; [reflexivity|].
  split.
  - exact (proj2 (proj2
      (applyNullMap_or_else_size_mismatch col_5_7_null [0; 1; 0]%Z
         col_5_7_null_consistent)) eq_refl).
  - assert (length [0; 1]%Z ≠ size col_5_7_null) as Hne by (vm_compute; lia).
    split; [exact Hne|].
    exact (proj1 (proj1 (proj2
      (applyNullMap_or_else_size_mismatch col_5_7_null [0; 1]%Z
         col_5_7_null_consistent)) Hne)).
Defined.

Lemma insertDefault_appends_null_witness :
  consistent col_empty
  ∧ size col_empty = 0
  ∧ size (insertDefault col_empty) = 1
  ∧ isNullAt (insertDefault col_empty) 0 = Some true
  ∧ IColumn.values (nested_column (insertDefault col_empty)) !! 0 = Some 0%Z.
Proof.
  split; [reflexivity|]. split; [reflexivity|].
  exact (proj2 (proj2 (insertDefault_appends_null col_empty))
           col_empty_consistent eq_refl).
Defined.

Lemma isNullAt_iff_byte_nonzero_witness :
  consistent col_5_null_9
  ∧ 1 < size col_5_null_9
  ∧ ∃ byte, null_map col_5_null_9 !! 1 = Some byte
            ∧ isNullAt col_5_null_9 1 = Some (bool_decide (byte ≠ 0%Z)).
Proof.
  split; [reflexivity|]. split; [vm_compute; lia|].
  apply (isNullAt_iff_byte_nonzero col_5_null_9 1); [reflexivity | vm_compute; lia].
Defined.

Lemma getDataAt_null_or_nested_witness :
  consistent col_5_null_9
  ∧ 1 < size col_5_null_9
  ∧ ((isNullAt col_5_null_9 1 = Some true
      ∧ getDataAt ListStore.EMPTY_STRING_REF col_5_null_9 1
        = Some ListStore.EMPTY_STRING_REF)
     ∨ (isNullAt col_5_null_9 1 = Some false
        ∧ getDataAt ListStore.EMPTY_STRING_REF col_5_null_9 1
          = Some (IColumn.getDataAt (nested_column col_5_null_9) 1))).
Proof.
  split; [reflexivity|]. split; [vm_compute; lia|].
  apply (getDataAt_null_or_nested ListStore.EMPTY_STRING_REF col_5_null_9 1);
    [reflexivity | vm_compute; lia].
Defined.

Lemma get64_ignores_null_map_getBool_checks_witness :
  isNullAt col_5_null_9 1 = Some true
  ∧ getBool col_5_null_9 1 = Some false
  ∧ get64 col_5_null_9 1 = IColumn.get64 (nested_column col_5_null_9) 1.
Proof.
  split; [reflexivity|].
  exact (proj1 (proj2 (proj2
    (get64_ignores_null_map_getBool_checks col_5_null_9 1))) eq_refl).
Defined.

(** The NULL row of [col_5_null_9] still yields its payload through [get64]. *)
Example get64_of_null_row : get64 col_5_null_9 1 = 7%Z.
Proof. reflexivity. Qed.

(** A column that is not a nullable wrapper is never structurally equal. *)
Example structureEquals_not_nullable :
  structureEquals col_5_null_9 (NotNullable [5; 7; 9]%Z) = false
  ∧ structureEquals col_5_null_9 (Nullable col_5_7_null) = true.
Proof. split; reflexivity. Qed.

(** A NULL row is serialized as its indicator byte alone and comes back as a
    default payload marked NULL. *)
Example roundtrip_of_null_row :
  serializeValueIntoArena col_5_null_9 1 [] = Some ([1%Z], [1%Z])
  ∧ deserializeAndInsertFromArena col_empty [1; 42]%Z
    = Some (create [0%Z] [1%Z], [42%Z])
  ∧ rowAt (create [0%Z] [1%Z]) 0 = rowAt col_5_null_9 1.
Proof. repeat split. Qed.

End Examples.

(** ** Further properties of the inline member functions *)

Module ColumnNullableMore.
Import ColumnNullable ColumnNullableFacts.

Section More.
Context {C V R : Type} `{!IColumn.Store C V R}.
Variable EMPTY_STRING_REF : R.
Implicit Types (col : t C) (n i k : nat).

Lemma iter_insertDefault_null_map k col :
  null_map (Nat.iter k insertDefault col) = null_map col ++ list.replicate k 1%Z.
Proof.
  induction k as [|k IH]; simpl.
  - by rewrite app_nil_r.
  - rewrite IH, <- app_assoc. f_equal. change [1%Z] with (list.replicate 1 1%Z).
    rewrite <- replicate_add. by rewrite Nat.add_1_r.
Qed.

Lemma iter_insertDefault_values k col :
  IColumn.values (nested_column (Nat.iter k insertDefault col))
  = IColumn.values (nested_column col) ++ list.replicate k IColumn.default.
Proof.
  induction k as [|k IH]; simpl.
  - by rewrite app_nil_r.
  - rewrite IColumn.values_insertDefault, IH, <- app_assoc. f_equal.
    change [IColumn.default] with (list.replicate 1 (IColumn.default (C:=C))).
    rewrite <- replicate_add. by rewrite Nat.add_1_r.
Qed.

(** X1: calling [insertDefault] [k] times appends [k] default values to the
    nested column and [k] bytes 1 to the null map; [size()] grows by [k], and
    the result has matching lengths exactly when the column had them before,
    so [insertDefault] neither breaks nor repairs the length invariant. *)
Theorem insertDefault_repeated k col :
  IColumn.values (nested_column (Nat.iter k insertDefault col))
    = IColumn.values (nested_column col) ++ list.replicate k IColumn.default
  ∧ null_map (Nat.iter k insertDefault col) = null_map col ++ list.replicate k 1%Z
  ∧ size (Nat.iter k insertDefault col) = size col + k
  ∧ (consistent (Nat.iter k insertDefault col) ↔ consistent col).
Proof.
  pose proof (iter_insertDefault_values k col) as Hv.
  pose proof (iter_insertDefault_null_map k col) as Hm.
  split; [done|]. split; [done|].
  assert (size (Nat.iter k insertDefault col) = size col + k) as Hsize.
  { unfold size. rewrite !IColumn.size_values, Hv, length_app, length_replicate.
    done. }
  split; [done|].
  unfold consistent. fold (size (Nat.iter k insertDefault col)). fold (size col).
  rewrite Hsize, Hm, length_app, length_replicate. lia.
Qed.

(** X2: after [k] calls of [insertDefault] on a column with matching lengths,
    every old row keeps its null flag and its payload, and every one of the
    [k] new rows is NULL: [isNullAt] is true, [getBool] is false and
    [getDataAt] is [EMPTY_STRING_REF], whatever the nested column answers for
    its default value. *)
Theorem insertDefault_repeated_rows k col i :
  consistent col →
  (i < size col →
   isNullAt (Nat.iter k insertDefault col) i = isNullAt col i
   ∧ IColumn.values (nested_column (Nat.iter k insertDefault col)) !! i
     = IColumn.values (nested_column col) !! i)
  ∧ (size col ≤ i < size col + k →
     isNullAt (Nat.iter k insertDefault col) i = Some true
     ∧ getBool (Nat.iter k insertDefault col) i = Some false
     ∧ getDataAt EMPTY_STRING_REF (Nat.iter k insertDefault col) i
       = Some EMPTY_STRING_REF
     ∧ IColumn.values (nested_column (Nat.iter k insertDefault col)) !! i
       = Some IColumn.default).
Proof.
  intros Hc. unfold consistent, size in *.
  pose proof (IColumn.size_values (nested_column col)) as Hsz.
  split.
  - intros Hi. unfold isNullAt.
    rewrite iter_insertDefault_null_map, iter_insertDefault_values.
    by rewrite !lookup_app_l by lia.
  - intros Hi.
    assert (isNullAt (Nat.iter k insertDefault col) i = Some true) as Hnull.
    { unfold isNullAt. rewrite iter_insertDefault_null_map.
      rewrite lookup_app_r by lia. by rewrite lookup_replicate_2 by lia. }
    unfold getBool, getDataAt. rewrite Hnull. simpl.
    repeat split.
    rewrite iter_insertDefault_values, lookup_app_r by lia.
    by rewrite lookup_replicate_2 by lia.
Qed.

(** X3: on a column with matching lengths, the null-map read behind
    [isNullAt], [getBool] and [getDataAt] falls inside the map exactly for the
    rows below [size()]; on an empty column no row can be read. *)
Theorem null_aware_accessors_in_bounds_iff col n :
  consistent col →
  (is_Some (isNullAt col n) ↔ n < size col)
  ∧ (is_Some (getBool col n) ↔ n < size col)
  ∧ (is_Some (getDataAt EMPTY_STRING_REF col n) ↔ n < size col)
  ∧ (size col = 0 → isNullAt col n = None).
Proof.
  intros Hc. unfold consistent, size in *.
  assert (is_Some (isNullAt col n) ↔ n < IColumn.size (nested_column col)) as Hiff.
  { unfold isNullAt. rewrite fmap_is_Some, lookup_lt_is_Some. lia. }
  split; [done|]. rewrite <- Hiff.
  unfold getBool, getDataAt.
  split; [|split].
  - destruct (isNullAt col n) as [[]|]; simpl; split; intros [? ?]; eauto; done.
  - destruct (isNullAt col n) as [[]|]; simpl; split; intros [? ?]; eauto; done.
  - intros Hz. destruct (isNullAt col n) eqn:E; [|done].
    assert (n < IColumn.size (nested_column col)) by (apply Hiff; eauto). lia.
Qed.

(** X4: [getBool] never answers true for a NULL row: a true answer means the
    row is not NULL and the nested column's [getBool] is true.  Likewise a
    [getDataAt] result other than [EMPTY_STRING_REF] means the row is not NULL
    and the result is the nested column's. *)
Theorem true_or_data_means_not_null col n :
  (getBool col n = Some true →
   isNullAt col n = Some false ∧ IColumn.getBool (nested_column col) n = true)
  ∧ (∀ ref, getDataAt EMPTY_STRING_REF col n = Some ref →
       ref ≠ EMPTY_STRING_REF →
       isNullAt col n = Some false
       ∧ ref = IColumn.getDataAt (nested_column col) n).
Proof.
  unfold getBool, getDataAt. split.
  - destruct (isNullAt col n) as [[]|]; simpl; [done| |done].
    by intros [= ->].
  - intros ref. destruct (isNullAt col n) as [[]|]; simpl; [|by intros [= <-]|done].
    by intros [= <-] ?.
Qed.

(** X5: only the zero-ness of a null-map byte matters.  Two columns over the
    same nested column whose null maps are zero at the same rows are
    indistinguishable through [isNullAt], [getBool], [getDataAt] and
    [get64]. *)
Theorem null_byte_value_is_irrelevant col (map1 map2 : NullMap) n :
  Forall2 (λ a b : Z, a = 0%Z ↔ b = 0%Z) map1 map2 →
  isNullAt (create (nested_column col) map1) n
    = isNullAt (create (nested_column col) map2) n
  ∧ getBool (create (nested_column col) map1) n
    = getBool (create (nested_column col) map2) n
  ∧ getDataAt EMPTY_STRING_REF (create (nested_column col) map1) n
    = getDataAt EMPTY_STRING_REF (create (nested_column col) map2) n
  ∧ get64 (create (nested_column col) map1) n
    = get64 (create (nested_column col) map2) n.
Proof.
  intros HF.
  assert (isNullAt (create (nested_column col) map1) n
          = isNullAt (create (nested_column col) map2) n) as Hnull.
  { unfold isNullAt. simpl.
    destruct (map1 !! n) as [a|] eqn:Ha.
    - destruct (Forall2_lookup_l _ _ _ _ _ HF Ha) as (b & -> & Hab). simpl.
      f_equal. rewrite !nonzero_spec. apply bool_decide_ext. tauto.
    - apply lookup_ge_None in Ha. rewrite (Forall2_length _ _ _ HF) in Ha.
      apply lookup_ge_None in Ha. by rewrite Ha. }
  unfold getBool, getDataAt. rewrite Hnull. done.
Qed.

End More.

(** *** Names *)

Section Names.
Context {C : Type}.
Variable nested_getName : C → string.

Lemma append_close_paren_inj (s1 s2 : string) :
  s1 +:+ ")" = s2 +:+ ")" → s1 = s2.
Proof.
  revert s2. induction s1 as [|a s1 IH]; intros [|b s2]; simpl; try done.
  - intros [= <- H]. by destruct s2.
  - intros [= <- H]. by destruct s1.
  - intros [= <- H]. f_equal. by apply IH.
Qed.

(** X6: the name of a nullable column starts with its family name
    ["Nullable"], and two nullable columns have the same name only if their
    nested columns have the same name. *)
Theorem getName_prefix_and_injective (col1 col2 : t C) :
  String.prefix (getFamilyName col1) (getName nested_getName col1) = true
  ∧ (getName nested_getName col1 = getName nested_getName col2 →
     nested_getName (nested_column col1) = nested_getName (nested_column col2)).
Proof.
  split; [done|]. unfold getName. intros Heq.
  apply append_close_paren_inj in Heq. simpl in Heq. by simplify_eq.
Qed.

End Names.
End ColumnNullableMore.

(** ** Further worked examples on the small value store *)

Module MoreExamples.
Import ListStore ColumnNullable ColumnNullableFacts ColumnNullableMore.

Lemma insertDefault_repeated_rows_witness :
  consistent col_5_null_9
  ∧ 3 ≤ 4 < size col_5_null_9 + 2
  ∧ isNullAt (Nat.iter 2 insertDefault col_5_null_9) 4 = Some true
  ∧ getBool (Nat.iter 2 insertDefault col_5_null_9) 4 = Some false.
Proof.
  split; [reflexivity|].
  assert (size col_5_null_9 ≤ 4 < size col_5_null_9 + 2) as Hi by (vm_compute; lia).
  split; [exact Hi|].
  destruct (proj2 (insertDefault_repeated_rows ListStore.EMPTY_STRING_REF 2
                     col_5_null_9 4 Examples.col_5_null_9_consistent) Hi)
    as (Hnull & Hbool & _).
  split; [exact Hnull|exact Hbool].
Defined.

Lemma null_aware_accessors_in_bounds_iff_witness :
  consistent col_5_null_9
  ∧ (is_Some (isNullAt col_5_null_9 2) ↔ 2 < size col_5_null_9)
  ∧ (is_Some (getBool col_5_null_9 3) ↔ 3 < size col_5_null_9).
Proof.
  split; [reflexivity|]. split.
  - exact (proj1 (null_aware_accessors_in_bounds_iff ListStore.EMPTY_STRING_REF
                    col_5_null_9 2 Examples.col_5_null_9_consistent)).
  - exact (proj1 (proj2 (null_aware_accessors_in_bounds_iff ListStore.EMPTY_STRING_REF
                    col_5_null_9 3 Examples.col_5_null_9_consistent))).
Defined.

Lemma true_or_data_means_not_null_witness :
  getBool col_5_null_9 0 = Some true
  ∧ isNullAt col_5_null_9 0 = Some false
  ∧ IColumn.getBool (nested_column col_5_null_9) 0 = true.
Proof.
  split; [reflexivity|].
  exact (proj1 (true_or_data_means_not_null ListStore.EMPTY_STRING_REF
                  col_5_null_9 0) eq_refl).
Defined.

Lemma null_byte_value_is_irrelevant_witness :
  Forall2 (λ a b : Z, a = 0%Z ↔ b = 0%Z) [0; 1; 0]%Z [0; 255; 0]%Z
  ∧ isNullAt (create [5; 7; 9]%Z [0; 1; 0]%Z) 1
    = isNullAt (create [5; 7; 9]%Z [0; 255; 0]%Z) 1
  ∧ getBool (create [5; 7; 9]%Z [0; 1; 0]%Z) 1
    = getBool (create [5; 7; 9]%Z [0; 255; 0]%Z) 1.
Proof.
  assert (Forall2 (λ a b : Z, a = 0%Z ↔ b = 0%Z) [0; 1; 0]%Z [0; 255; 0]%Z) as HF.
  { repeat constructor; lia. }
  split; [exact HF|].
  destruct (null_byte_value_is_irrelevant ListStore.EMPTY_STRING_REF
              col_5_null_9 [0; 1; 0]%Z [0; 255; 0]%Z 1 HF) as (Hnull & Hbool & _).
  split; [exact Hnull|exact Hbool].
Defined.

Lemma getName_prefix_and_injective_witness :
  getName ListStore.getName col_5_null_9 = getName ListStore.getName col_5_7_null
  ∧ ListStore.getName (nested_column col_5_null_9)
    = ListStore.getName (nested_column col_5_7_null).
Proof.
  split; [reflexivity|].
  exact (proj2 (getName_prefix_and_injective ListStore.getName col_5_null_9 col_5_7_null)
           eq_refl).
Defined.

End MoreExamples.
